(** * Essay-correction endpoint (app.py): a shallow embedding and its properties

    The program reads an essay from a document service, sends it to a
    completion service, cuts the reply into three sections and writes the
    cleaned sections back to a database row.

    Python text is modelled as a list of Unicode code points, Python
    exceptions as an explicit error result, the three outbound HTTP calls
    as oracles of a [world] whose invocations are logged in call order.
    Diagnostic [print] calls write to standard output only and are left
    out: no value computed by the program depends on them. *)

From Stdlib Require Import String Ascii.
From Stdlib Require Import List NArith ZArith Bool Arith Lia.
From Equations.Prop Require Import Equations Logic.
Import ListNotations.

Set Implicit Arguments.
Set Warnings "-register-all".

(** ** Python strings *)

Module Py.

(** A [str] is a sequence of code points. *)
Definition char := N.
Definition str := list char.

(** Literals of the source are written as UTF-8 text and decoded here. *)
Fixpoint utf8_decode (need : nat) (acc : N) (bs : list N) : str :=
  match bs with
  | [] => []
  | b :: t =>
      match need with
      | O =>
          if (b <? 128)%N then b :: utf8_decode 0 0 t
          else if (b <? 224)%N then utf8_decode 1 (b - 192) t
          else if (b <? 240)%N then utf8_decode 2 (b - 224) t
          else utf8_decode 3 (b - 240) t
      | S k =>
          let acc' := (acc * 64 + (b - 128))%N in
          match k with
          | O => acc' :: utf8_decode 0 0 t
          | S _ => utf8_decode k acc' t
          end
      end
  end.

Definition u (s : string) : str :=
  utf8_decode 0 0 (List.map N_of_ascii (list_ascii_of_string s)).

Definition NL : char := 10%N.
Definition LBRACKET : char := 91%N.
Definition RBRACKET : char := 93%N.
Definition DQUOTE : char := 34%N.

Definition str_eqb (a b : str) : bool :=
  if list_eq_dec N.eq_dec a b then true else false.

(** [str.isspace] on one code point: the characters [str.strip()] removes. *)
Definition isspace (c : char) : bool :=
  ((9 <=? c) && (c <=? 13) || (28 <=? c) && (c <=? 32)
   || (c =? 133) || (c =? 160) || (c =? 5760)
   || (8192 <=? c) && (c <=? 8202)
   || (c =? 8232) || (c =? 8233) || (c =? 8239) || (c =? 8287)
   || (c =? 12288))%N.

Fixpoint lstrip (s : str) : str :=
  match s with
  | [] => []
  | c :: t => if isspace c then lstrip t else s
  end.

Definition rstrip (s : str) : str := rev (lstrip (rev s)).

(** [s.strip()] *)
Definition strip (s : str) : str := rstrip (lstrip s).

(** [s.startswith(p)] *)
Fixpoint startswith (p s : str) : bool :=
  match p, s with
  | [], _ => true
  | _ :: _, [] => false
  | a :: p', b :: s' => (a =? b)%N && startswith p' s'
  end.

(** [s.partition(sep)] when [sep] occurs in [s]: the text before its first
    occurrence and the text after it. *)
Fixpoint find_sep (sep s : str) : option (str * str) :=
  if startswith sep s then Some ([], skipn (length sep) s)
  else match s with
       | [] => None
       | c :: t =>
           match find_sep sep t with
           | Some (a, b) => Some (c :: a, b)
           | None => None
           end
       end.

(** [sub in s] for strings. *)
Definition contains_str (sub s : str) : bool :=
  match find_sep sub s with Some _ => true | None => false end.

(** [s.split(sep, maxsplit)] for a non-empty [sep]: cut at the first
    occurrence, at most [maxsplit] times, left to right. *)
Fixpoint split_max (sep : str) (maxsplit : nat) (s : str) : list str :=
  match maxsplit with
  | O => [s]
  | S n =>
      match find_sep sep s with
      | None => [s]
      | Some (a, b) => a :: split_max sep n b
      end
  end.

(** [s.split(sep)]: no limit on the number of cuts.  Every cut consumes at
    least one character of [s], so [length s] cuts are never exceeded
    (lemma [split_max_enough]). *)
Definition split (sep s : str) : list str := split_max sep (length s) s.

(** [sep.join(parts)] on a list of strings. *)
Fixpoint join (sep : str) (parts : list str) : str :=
  match parts with
  | [] => []
  | [p] => p
  | p :: rest => p ++ sep ++ join sep rest
  end.

(** *** The regular expression [\[.*?\]]

    [lazy_dots s] matches [.*?\]] at the start of [s] and returns the text
    after the match: the lazy star first tries to stop, and otherwise
    consumes one character, which [.] refuses when it is a line feed. *)
Fixpoint lazy_dots (s : str) : option str :=
  match s with
  | [] => None
  | c :: t =>
      if (c =? RBRACKET)%N then Some t
      else if (c =? NL)%N then None
      else lazy_dots t
  end.

(** One match attempt of the whole pattern at the start of [s]. *)
Definition match_label (s : str) : option str :=
  match s with
  | [] => None
  | c :: t => if (c =? LBRACKET)%N then lazy_dots t else None
  end.

(** [re.sub] of the pattern by the empty string: scanning from the left,
    every match is dropped and the scan resumes after it; a character at
    which the pattern does not match is kept. *)
Equations? re_sub_label (s : str) : str by wf (length s) lt :=
  re_sub_label [] := [];
  re_sub_label (c :: t) with inspect (match_label (c :: t)) := {
    | exist _ (Some rest) Hm := re_sub_label rest;
    | exist _ None _ := c :: re_sub_label t }.
Proof.
  clear re_sub_label. simpl in Hm.
  destruct (c =? LBRACKET)%N; [|discriminate].
  revert rest Hm. induction t as [|d t IH]; simpl; [discriminate|].
  intros rest. destruct (d =? RBRACKET)%N.
  - intros [= <-]. lia.
  - destruct (d =? NL)%N; [discriminate|].
    intros H. specialize (IH _ H). lia.
Qed.

End Py.

Import Py.

(** ** The label cleaner *)

(** [clean_text(text)] *)
Definition clean_text (text : str) : str := strip (re_sub_label text).

(** ** Python values and exceptions *)

(** A Python [float]: [m * 2^e], an infinity, or not a number. *)
Inductive pyfloat :=
| Finite (m e : Z)
| Infinite (negative : bool)
| NaN.

(** The values [response.json()] can produce.  A [VDict] lists the entries
    of a dict in insertion order; its keys are strings, pairwise distinct
    in a parsed JSON object. *)
Inductive value :=
| VNone
| VBool (b : bool)
| VInt (n : Z)
| VFloat (f : pyfloat)
| VStr (s : str)
| VList (l : list value)
| VDict (d : list (str * value)).

Inductive exn :=
| KeyError
| TypeError
| IndexError
| RequestError.   (* raised inside an outbound call *)

Inductive result (A : Type) :=
| Return (a : A)
| Raise (e : exn).
Arguments Return {A} a.
Arguments Raise {A} e.

Definition rbind {A B} (m : result A) (f : A -> result B) : result B :=
  match m with
  | Return a => f a
  | Raise e => Raise e
  end.

Declare Scope result_scope.
Delimit Scope result_scope with result.
Notation "x <- m ;; k" := (rbind m (fun x => k))
  (at level 61, m at next level, right associativity) : result_scope.

(** [bool(v)] *)
Definition truthy (v : value) : bool :=
  match v with
  | VNone => false
  | VBool b => b
  | VInt n => negb (n =? 0)%Z
  | VFloat (Finite m _) => negb (m =? 0)%Z
  | VFloat _ => true
  | VStr s => negb (str_eqb s [])
  | VList l => match l with [] => false | _ => true end
  | VDict d => match d with [] => false | _ => true end
  end.

(** [v == s] for a string literal [s] *)
Definition eq_str (v : value) (s : str) : bool :=
  match v with
  | VStr t => str_eqb t s
  | _ => false
  end.

Fixpoint dict_get (d : list (str * value)) (key : str) : option value :=
  match d with
  | [] => None
  | (k, v) :: rest => if str_eqb k key then Some v else dict_get rest key
  end.

(** [key in v] for a string [key] *)
Definition contains (key : str) (v : value) : result bool :=
  match v with
  | VDict d => Return (match dict_get d key with Some _ => true | None => false end)
  | VList l => Return (existsb (fun e => eq_str e key) l)
  | VStr s => Return (contains_str key s)
  | _ => Raise TypeError
  end.

(** [v[key]] for a string [key] *)
Definition getitem (v : value) (key : str) : result value :=
  match v with
  | VDict d => match dict_get d key with Some x => Return x | None => Raise KeyError end
  | _ => Raise TypeError
  end.

(** [v[0]] *)
Definition getitem0 (v : value) : result value :=
  match v with
  | VList l => match l with x :: _ => Return x | [] => Raise IndexError end
  | VStr s => match s with c :: _ => Return (VStr [c]) | [] => Raise IndexError end
  | VDict _ => Raise KeyError
  | _ => Raise TypeError
  end.

(** The items [for x in v] visits. *)
Definition iterate (v : value) : result (list value) :=
  match v with
  | VList l => Return l
  | VDict d => Return (List.map (fun kv => VStr (fst kv)) d)
  | VStr s => Return (List.map (fun c => VStr [c]) s)
  | _ => Raise TypeError
  end.

(** The strings of a list handed to [str.join], which refuses anything else. *)
Fixpoint strings_of (l : list value) : result (list str) :=
  match l with
  | [] => Return []
  | VStr s :: rest => (ss <- strings_of rest ;; Return (s :: ss))%result
  | _ :: _ => Raise TypeError
  end.

Definition join_values (sep : str) (l : list value) : result str :=
  (ss <- strings_of l ;; Return (join sep ss))%result.

(** ** Outbound calls *)

Definition headers_t := list (str * str).

Inductive call :=
| Get (url : str) (hdrs : headers_t)
| ChatCreate (api_key : option str) (model : str) (messages : list (str * str))
| Patch (url : str) (hdrs : headers_t) (json : value).

(** The environment of one request: the process environment and the two
    services.  [requests_get] answers with the decoded body
    ([response.json()]); [chat_create] stands for building the client from
    the key and sending the chat request, and answers with
    [response.choices[0].message.content]; [requests_patch] answers with
    the status code and the response text.  Each of them may raise. *)
Record world := {
  environ : str -> option str;
  requests_get : str -> headers_t -> result value;
  chat_create : option str -> str -> list (str * str) -> result str;
  requests_patch : str -> headers_t -> value -> result (Z * str)
}.

(** A computation yields a value or an exception, and the calls it made. *)
Definition io (A : Type) : Type := (result A * list call)%type.

Definition ret {A} (a : A) : io A := (Return a, []).

Definition bind {A B} (m : io A) (f : A -> io B) : io B :=
  match m with
  | (Return a, l) => let (r, l') := f a in (r, l ++ l')
  | (Raise e, l) => (Raise e, l)
  end.

Definition lift {A} (r : result A) : io A := (r, []).

Definition perform {A} (c : call) (r : result A) : io A := (r, [c]).

Declare Scope io_scope.
Delimit Scope io_scope with io.
Notation "x <- m ;; k" := (bind m (fun x => k))
  (at level 61, m at next level, right associativity) : io_scope.
Notation "m ;;; k" := (bind m (fun _ => k))
  (at level 61, right associativity) : io_scope.

Definition outcome {A} (m : io A) : result A := fst m.
Definition calls {A} (m : io A) : list call := snd m.

(** ** The program *)

(** [f"{x}"] of a value that is a string or [None] *)
Definition format_opt (x : option str) : str :=
  match x with
  | Some s => s
  | None => u "None"
  end.

(** The loop of [get_page_content] over the blocks, [content] being the
    list built so far. *)
Fixpoint collect_paragraphs (blocks : list value) (content : list value)
  : result (list value) :=
  match blocks with
  | [] => Return content
  | block :: rest =>
      (ty <- getitem block (u "type") ;;
       if eq_str ty (u "paragraph") then
         p <- getitem block (u "paragraph") ;;
         rt <- getitem p (u "rich_text") ;;
         if negb (truthy rt) then collect_paragraphs rest content
         else
           first <- getitem0 rt ;;
           t <- getitem first (u "text") ;;
           c <- getitem t (u "content") ;;
           collect_paragraphs rest (content ++ [c])
       else collect_paragraphs rest content)%result
  end.

(** What [get_page_content] does with the decoded response [data]. *)
Definition page_text (data : value) : result (option str) :=
  (has <- contains (u "results") data ;;
   if negb has then Return None
   else
     results <- getitem data (u "results") ;;
     blocks <- iterate results ;;
     content <- collect_paragraphs blocks [] ;;
     text <- join_values [NL] content ;;
     Return (Some text))%result.

(** The placeholder returned for a reply that has fewer than three parts. *)
Definition format_error : str := u "錯誤：Groq 回應格式異常".

(** What [correct_grammar] does with the reply text. *)
Definition parse_reply (content : str) : str * str * str :=
  let gpt_response := split [NL; NL] (strip content) in
  if length gpt_response <? 3 then (format_error, [], [])
  else (nth 0 gpt_response [], nth 1 gpt_response [], nth 2 gpt_response []).

Definition prompt_head : str :=
  u "
    這是我的英文短文，請幫我：
    1️⃣ 修正所有文法錯誤，並輸出為「[修正文] 修正後的短文」。
    2️⃣ 根據托福考試評分標準，提供「[錯誤分析] 錯誤分析」。
    3️⃣ 提供「[高分建議] 如何提升文章品質」並提出具體改進建議及更自然的詞彙或句型,每個建議至少提供一個例句。
    
    我的文章：
    ".

Definition prompt_tail : str :=
  u "
    ".

Definition success_page : str :=
  u "
    <html>
    <script>
        function goToNotion() {
            window.location.href = "
  ++ DQUOTE :: u "notion://"
  ++ DQUOTE :: u ";  // 嘗試開啟 Notion App

            // 延遲 3 秒後關閉網頁，確保有時間按「開啟 Notion」
            setTimeout(() => { 
                window.close();  
            }, 3000);  // 3 秒後關閉，時間可調整
        }
    </script>

    <body>
        ✅ Flask 批改完成！結果已回寫到 Notion！
        <br><br>
        <a id="
  ++ DQUOTE :: u "notion-link"
  ++ DQUOTE :: u " href="
  ++ DQUOTE :: u "notion://"
  ++ DQUOTE :: u " onclick="
  ++ DQUOTE :: u "goToNotion()"
  ++ DQUOTE :: u ">👉 點這裡回 Notion</a>
    </body>
    </html>
    ".

Definition rich_text (content : str) : value :=
  VDict [(u "rich_text",
          VList [VDict [(u "text", VDict [(u "content", VStr content)])]])].

(** The [json] body of the update request. *)
Definition notion_data (corrected_text error_analysis high_score_tips : str) : value :=
  VDict [(u "properties",
          VDict [(u "GPT 修正後短文", rich_text corrected_text);
                 (u "錯誤分析 ", rich_text error_analysis);
                 (u "GPT 高分建議", rich_text high_score_tips)])].

(** The URL of the child blocks of a page, and of a database row. *)
Definition blocks_url (page_id : option str) : str :=
  u "https://api.notion.com/v1/blocks/" ++ format_opt page_id ++ u "/children".

Definition pages_url (row_page_id : option str) : str :=
  u "https://api.notion.com/v1/pages/" ++ format_opt row_page_id.

(** The prompt built around the essay, and the chat request that carries it. *)
Definition prompt_of (text : option str) : str :=
  prompt_head ++ format_opt text ++ prompt_tail.

Definition chat_model : str := u "mixtral-8x7b-32768".

Definition chat_messages (prompt : str) : list (str * str) :=
  [(u "system", u "You are a helpful assistant."); (u "user", prompt)].

Definition missing_id_message : str := u "❌ 缺少必要的 Page ID".
Definition no_content_message : str := u "❌ 短文庫內沒有內容".

Section Program.

Variable w : world.

Definition GROQ_API_KEY : option str := environ w (u "GROQ_API_KEY").
Definition NOTION_API_KEY : option str := environ w (u "NOTION_API_KEY").

Definition headers : headers_t :=
  [(u "Authorization", u "Bearer " ++ format_opt NOTION_API_KEY);
   (u "Notion-Version", u "2022-06-28");
   (u "Content-Type", u "application/json")].

Definition get_page_content (page_id : option str) : io (option str) :=
  (let url := blocks_url page_id in
   data <- perform (Get url headers) (requests_get w url headers) ;;
   lift (page_text data))%io.

Definition correct_grammar (text : option str) : io (str * str * str) :=
  (let prompt := prompt_of text in
   let messages := chat_messages prompt in
   content <- perform (ChatCreate GROQ_API_KEY chat_model messages)
                      (chat_create w GROQ_API_KEY chat_model messages) ;;
   ret (parse_reply content))%io.

Definition update_notion_page (row_page_id : option str)
  (corrected_text error_analysis high_score_tips : str) : io unit :=
  (let corrected_text := clean_text corrected_text in
   let error_analysis := clean_text error_analysis in
   let high_score_tips := clean_text high_score_tips in
   let url := pages_url row_page_id in
   let body := notion_data corrected_text error_analysis high_score_tips in
   perform (Patch url headers body) (requests_patch w url headers body) ;;;
   ret tt)%io.

(** [not x] for a query parameter or a page text: [None], or the empty
    string. *)
Definition falsy (x : option str) : bool :=
  match x with
  | None => true
  | Some s => str_eqb s []
  end.

(** The handler, from the two query parameters ([request.args.get]) to the
    response body and status.  An exception leaves the handler. *)
Definition trigger_python (text_page_id row_page_id : option str) : io (str * Z) :=
  (if falsy text_page_id || falsy row_page_id
   then ret (missing_id_message, 400%Z)
   else
     content <- get_page_content text_page_id ;;
     if falsy content then ret (no_content_message, 400%Z)
     else
       sections <- correct_grammar content ;;
       let '(corrected_text, error_analysis, high_score_tips) := sections in
       update_notion_page row_page_id
                          corrected_text error_analysis high_score_tips ;;;
       ret (success_page, 200%Z))%io.

End Program.

(** ** Vocabulary of the statements *)

(** [x] holds a bracketed span: an opening bracket and, later on the same
    line, a closing one. *)
Definition bracketed_span (x : str) : Prop :=
  exists a m b, x = a ++ LBRACKET :: m ++ RBRACKET :: b /\ ~ In NL m.

(** The pattern matches somewhere in [s] ([re.search] finds a match). *)
Fixpoint search_label (s : str) : bool :=
  match s with
  | [] => false
  | _ :: t =>
      match match_label s with
      | Some _ => true
      | None => search_label t
      end
  end.

(** [paragraph_texts blocks ps]: the blocks are well-formed blocks of the
    document service, and [ps] lists, in block order, the text content of
    the first rich-text entry of every paragraph block whose rich-text list
    is not empty. *)
Inductive paragraph_texts : list value -> list str -> Prop :=
| texts_nil : paragraph_texts [] []
| texts_other d ty rest ps :
    dict_get d (u "type") = Some ty ->
    eq_str ty (u "paragraph") = false ->
    paragraph_texts rest ps ->
    paragraph_texts (VDict d :: rest) ps
| texts_empty d p rest ps :
    dict_get d (u "type") = Some (VStr (u "paragraph")) ->
    dict_get d (u "paragraph") = Some (VDict p) ->
    dict_get p (u "rich_text") = Some (VList []) ->
    paragraph_texts rest ps ->
    paragraph_texts (VDict d :: rest) ps
| texts_first d p e others t c rest ps :
    dict_get d (u "type") = Some (VStr (u "paragraph")) ->
    dict_get d (u "paragraph") = Some (VDict p) ->
    dict_get p (u "rich_text") = Some (VList (VDict e :: others)) ->
    dict_get e (u "text") = Some (VDict t) ->
    dict_get t (u "content") = Some (VStr c) ->
    paragraph_texts rest ps ->
    paragraph_texts (VDict d :: rest) (c :: ps).


(** The call is a read of the document service. *)
Definition is_get (c : call) : bool :=
  match c with
  | Get _ _ => true
  | _ => false
  end.

(** *** Sample services *)

Module Fixture.

Definition entry (c : str) : value :=
  VDict [(u "type", VStr (u "text"));
         (u "text", VDict [(u "content", VStr c); (u "link", VNone)]);
         (u "plain_text", VStr c)].

Definition paragraph (entries : list str) : value :=
  VDict [(u "object", VStr (u "block"));
         (u "type", VStr (u "paragraph"));
         (u "paragraph",
          VDict [(u "rich_text", VList (List.map entry entries));
                 (u "color", VStr (u "default"))])].

Definition heading : value :=
  VDict [(u "object", VStr (u "block"));
         (u "type", VStr (u "heading_1"));
         (u "heading_1", VDict [(u "rich_text", VList [entry (u "Essay")])])].

Definition listing (blocks : list value) : value :=
  VDict [(u "object", VStr (u "list"));
         (u "results", VList blocks);
         (u "has_more", VBool false)].

Definition essay : value :=
  listing [heading;
           paragraph [u "I has a pen."; u " It are red."];
           paragraph [];
           paragraph [u "She go home."]].

Definition blank_page : value := listing [heading; paragraph []].

Definition api_error : value :=
  VDict [(u "object", VStr (u "error")); (u "status", VInt 404);
         (u "code", VStr (u "object_not_found"))].

Definition reply_three : str :=
  u "[修正文] I have a pen.

[錯誤分析] has -> have

[高分建議] Read more.

Thanks!
".

Definition reply_two : str :=
  u " I have a pen.

Nothing else. ".

Definition service (data : value) (reply : str) (status : Z) : world :=
  {| environ := fun _ => Some (u "secret");
     requests_get := fun _ _ => Return data;
     chat_create := fun _ _ _ => Return reply;
     requests_patch := fun _ _ _ => Return (status, u "{}") |}.

End Fixture.

(** ** The section extractor *)

(** The characters that a regular expression does not read as themselves. *)
Definition regex_special (c : char) : bool :=
  ((c =? 46) || (c =? 94) || (c =? 36) || (c =? 42) || (c =? 43) || (c =? 63)
   || (c =? 123) || (c =? 125) || (c =? 91) || (c =? 93) || (c =? 92)
   || (c =? 124) || (c =? 40) || (c =? 41))%N.

(** A section name that, put into a pattern, matches itself and nothing
    else. *)
Definition plain_name (s : str) : bool := forallb (fun c => negb (regex_special c)) s.

(** The lazy group [([\s\S]+?)] once it holds a character: it stops as soon
    as the lookahead [(?=\n\[|\Z)] holds, and takes one more character
    otherwise. *)
Fixpoint lazy_any (t : str) : str :=
  if startswith [NL; LBRACKET] t then []
  else match t with
       | [] => []
       | c :: t' => c :: lazy_any t'
       end.

Definition unparsed_message : str := u "⚠️ 無法解析此部分".

(** [extract_section(text, section_name)].  The name is put into the
    pattern as it is; the model covers the names that are [plain_name] and
    is [None] on the others.  The search stops at the leftmost place where
    the name is followed by at least one character. *)
Definition extract_section (text section_name : str) : option str :=
  if plain_name section_name then
    Some match find_sep section_name text with
         | Some (_, c :: t) => strip (c :: lazy_any t)
         | _ => unparsed_message
         end
  else None.

(** [s] holds a blank line, the delimiter of the reply's segments. *)
Definition has_blank_line (s : str) : Prop := exists x y, s = x ++ [NL; NL] ++ y.

(** *** Services that fail *)

Module Faults.

Definition read_fails (e : exn) : world :=
  {| environ := fun _ => Some (u "secret");
     requests_get := fun _ _ => Raise e;
     chat_create := fun _ _ _ => Return Fixture.reply_three;
     requests_patch := fun _ _ _ => Return (200%Z, u "{}") |}.



Definition no_keys : world :=
  {| environ := fun _ => None;
     requests_get := fun _ _ => Return Fixture.essay;
     chat_create := fun _ _ _ => Return Fixture.reply_three;
     requests_patch := fun _ _ _ => Return (200%Z, u "{}") |}.

(** A paragraph block whose rich text is [rt], whatever it is. *)
Definition paragraph_of (rt : value) : value :=
  VDict [(u "type", VStr (u "paragraph"));
         (u "paragraph", VDict [(u "rich_text", rt)])].

End Faults.

Arguments u : simpl never.
Unset Implicit Arguments.

(** ** Worked examples *)

Example clean_text_ex1 :
  clean_text (u " [錯誤分析] He goes [x]to school.　") = u "He goes to school.".
Proof. reflexivity. Qed.

Example clean_text_ex2 :
  clean_text (u "[[a]] [b
c] x [d") = u "] [b
c] x [d".
Proof. reflexivity. Qed.

Example split_ex1 :
  split [NL; NL] [NL; NL; NL; NL; NL] = [[]; []; [NL]] /\ split [NL; NL] [] = [[]].
Proof. split; reflexivity. Qed.

(** Sections are taken by position, whatever labels they carry. *)
Example parse_reply_positional :
  parse_reply (u "[錯誤分析] B

[修正文] A

[高分建議] C") = (u "[錯誤分析] B", u "[修正文] A", u "[高分建議] C").
Proof. reflexivity. Qed.

Example literal_sizes :
  (length prompt_head, length prompt_tail, length success_page) = (172, 5, 479).
Proof. reflexivity. Qed.


(** ** The regular expression and the cleaner *)

Section Cleaner.

Lemma re_sub_label_cons c t :
  re_sub_label (c :: t) =
  match match_label (c :: t) with
  | Some rest => re_sub_label rest
  | None => c :: re_sub_label t
  end.
Proof.
  rewrite re_sub_label_equation_2.
  destruct (inspect (match_label (c :: t))) as [[r|] H];
    cbn in *; rewrite H; reflexivity.
Qed.

(** A closing bracket reached by the lazy star stays reachable when text is
    added behind. *)
Lemma lazy_dots_app s r b : lazy_dots s = Some r -> lazy_dots (s ++ b) = Some (r ++ b).
Proof.
  induction s as [|c t IH]; simpl; [discriminate|].
  destruct (c =? RBRACKET)%N.
  - intros [= <-]. reflexivity.
  - destruct (c =? NL)%N; [discriminate|]. exact IH.
Qed.

(** What a successful match of the lazy star consumed. *)
Lemma lazy_dots_Some s r :
  lazy_dots s = Some r -> exists m, s = m ++ RBRACKET :: r /\ ~ In NL m.
Proof.
  revert r. induction s as [|c t IH]; simpl; intros r; [discriminate|].
  destruct (c =? RBRACKET)%N eqn:Hc.
  - intros [= <-]. apply N.eqb_eq in Hc. subst c.
    exists []. split; [reflexivity|]. intros [].
  - destruct (c =? NL)%N eqn:Hn; [discriminate|].
    intros H. destruct (IH _ H) as (m & -> & Hm).
    exists (c :: m). split; [reflexivity|].
    intros [E|E]; [|exact (Hm E)].
    apply N.eqb_neq in Hn. congruence.
Qed.

Lemma lazy_dots_span m b : ~ In NL m -> exists r, lazy_dots (m ++ RBRACKET :: b) = Some r.
Proof.
  induction m as [|c m IH]; simpl; intros Hm.
  - eexists. reflexivity.
  - destruct (c =? RBRACKET)%N; [eexists; reflexivity|].
    destruct (c =? NL)%N eqn:Hn.
    + apply N.eqb_eq in Hn. exfalso. apply Hm. left. exact Hn.
    + apply IH. intros E. apply Hm. right. exact E.
Qed.

Lemma search_label_cons c t :
  search_label (c :: t) =
  match match_label (c :: t) with
  | Some _ => true
  | None => search_label t
  end.
Proof. reflexivity. Qed.

(** The pattern matches somewhere exactly when the text holds a bracketed
    span. *)
Lemma search_label_true s : search_label s = true <-> bracketed_span s.
Proof.
  split.
  - induction s as [|c t IH]; [discriminate|].
    rewrite search_label_cons.
    destruct (match_label (c :: t)) as [r|] eqn:Hm.
    + intros _. simpl in Hm.
      destruct (c =? LBRACKET)%N eqn:Hc; [|discriminate].
      apply N.eqb_eq in Hc. subst c.
      destruct (lazy_dots_Some _ _ Hm) as (m & -> & Hnl).
      exists [], m, r. split; [reflexivity|exact Hnl].
    + intros H. destruct (IH H) as (a & m & b & -> & Hnl).
      exists (c :: a), m, b. split; [reflexivity|exact Hnl].
  - intros (a & m & b & -> & Hnl).
    induction a as [|c a IH].
    + simpl app. rewrite search_label_cons. simpl.
      destruct (lazy_dots_span m b Hnl) as [r ->]. reflexivity.
    + simpl app. rewrite search_label_cons.
      destruct (match_label _); [reflexivity|exact IH].
Qed.

Lemma search_label_false s : search_label s = false <-> ~ bracketed_span s.
Proof.
  rewrite <- search_label_true. destruct (search_label s); split; congruence.
Qed.

(** Where nothing matches, the substitution changes nothing. *)
Lemma re_sub_label_id s : search_label s = false -> re_sub_label s = s.
Proof.
  induction s as [|c t IH]; [reflexivity|].
  rewrite search_label_cons, re_sub_label_cons.
  destruct (match_label (c :: t)); [discriminate|].
  intros H. rewrite (IH H). reflexivity.
Qed.

(** An opening bracket that found no closing one finds none after the
    substitution either. *)
Lemma lazy_dots_re_sub t : lazy_dots t = None -> lazy_dots (re_sub_label t) = None.
Proof.
  induction t as [|c t IH]; [reflexivity|].
  rewrite re_sub_label_cons. simpl.
  destruct (c =? RBRACKET)%N eqn:Hr; [discriminate|].
  destruct (c =? NL)%N eqn:Hn.
  - intros _.
    assert ((c =? LBRACKET)%N = false) as ->.
    { apply N.eqb_eq in Hn. subst c. reflexivity. }
    simpl. rewrite Hr, Hn. reflexivity.
  - intros H. destruct (c =? LBRACKET)%N.
    + rewrite H. simpl. rewrite Hr, Hn. exact (IH H).
    + simpl. rewrite Hr, Hn. exact (IH H).
Qed.

(** The result of the substitution holds no match. *)
Lemma search_label_re_sub s : search_label (re_sub_label s) = false.
Proof.
  remember (length s) as n eqn:Hn.
  revert s Hn. induction n as [n IH] using lt_wf_ind. intros s Hn.
  destruct s as [|c t]; [reflexivity|].
  rewrite re_sub_label_cons.
  destruct (match_label (c :: t)) as [r|] eqn:Hm.
  - apply (IH (length r)); [|reflexivity].
    subst n. simpl in Hm. destruct (c =? LBRACKET)%N; [|discriminate].
    clear IH. revert r Hm. induction t as [|d t IHt]; simpl; [discriminate|].
    intros r. destruct (d =? RBRACKET)%N.
    + intros [= <-]. lia.
    + destruct (d =? NL)%N; [discriminate|].
      intros H. specialize (IHt _ H). simpl in IHt. lia.
  - rewrite search_label_cons.
    assert (match_label (c :: re_sub_label t) = None) as ->.
    { simpl in *. destruct (c =? LBRACKET)%N; [|reflexivity].
      apply lazy_dots_re_sub. exact Hm. }
    apply (IH (length t)); [subst n; simpl; lia|reflexivity].
Qed.

(** A text without a match has none in its parts. *)
Lemma search_label_app a b :
  search_label (a ++ b) = false -> search_label a = false /\ search_label b = false.
Proof.
  rewrite !search_label_false. intros H. split.
  - intros (x & m & y & -> & Hm). apply H.
    exists x, m, (y ++ b). split; [|exact Hm].
    rewrite <- !app_assoc. simpl. rewrite <- app_assoc. reflexivity.
  - intros (x & m & y & -> & Hm). apply H.
    exists (a ++ x), m, y. split; [|exact Hm].
    rewrite <- app_assoc. reflexivity.
Qed.

End Cleaner.

(** ** Trimming *)

Section Trimming.

Lemma lstrip_suffix s : exists ws, s = ws ++ lstrip s.
Proof.
  induction s as [|c t [ws IH]]; simpl.
  - exists []. reflexivity.
  - destruct (isspace c).
    + exists (c :: ws). simpl. rewrite <- IH. reflexivity.
    + exists []. reflexivity.
Qed.

Lemma rstrip_prefix s : exists ws, s = rstrip s ++ ws.
Proof.
  unfold rstrip. destruct (lstrip_suffix (rev s)) as [ws H].
  exists (rev ws). rewrite <- rev_app_distr, <- H, rev_involutive. reflexivity.
Qed.

Lemma lstrip_idem s : lstrip (lstrip s) = lstrip s.
Proof.
  induction s as [|c t IH]; simpl; [reflexivity|].
  destruct (isspace c) eqn:Hc; [exact IH|].
  simpl. rewrite Hc. reflexivity.
Qed.

Lemma rstrip_idem s : rstrip (rstrip s) = rstrip s.
Proof. unfold rstrip. rewrite rev_involutive, lstrip_idem. reflexivity. Qed.

Lemma lstrip_snoc a c : isspace c = false -> lstrip (a ++ [c]) = lstrip a ++ [c].
Proof.
  intros Hc. induction a as [|d a IH]; simpl.
  - rewrite Hc. reflexivity.
  - destruct (isspace d); [exact IH|reflexivity].
Qed.

Lemma rstrip_cons c t : isspace c = false -> rstrip (c :: t) = c :: rstrip t.
Proof.
  intros Hc. unfold rstrip. simpl.
  rewrite (lstrip_snoc _ _ Hc), rev_app_distr. reflexivity.
Qed.

Lemma lstrip_head s : lstrip s = [] \/ exists c t, lstrip s = c :: t /\ isspace c = false.
Proof.
  induction s as [|c t IH]; simpl; [left; reflexivity|].
  destruct (isspace c) eqn:Hc; [exact IH|].
  right. exists c, t. split; [reflexivity|exact Hc].
Qed.

(** Trimming the right end does not uncover white space at the left end. *)
Lemma lstrip_rstrip_lstrip s : lstrip (rstrip (lstrip s)) = rstrip (lstrip s).
Proof.
  destruct (lstrip_head s) as [-> | (c & t & -> & Hc)]; [reflexivity|].
  rewrite (rstrip_cons _ _ Hc). simpl. rewrite Hc. reflexivity.
Qed.

Lemma strip_idem s : strip (strip s) = strip s.
Proof.
  unfold strip. rewrite lstrip_rstrip_lstrip, rstrip_idem. reflexivity.
Qed.

Lemma search_label_strip s : search_label s = false -> search_label (strip s) = false.
Proof.
  intros H. unfold strip.
  destruct (lstrip_suffix s) as [ws Hs]. rewrite Hs in H.
  apply search_label_app in H. destruct H as [_ H].
  destruct (rstrip_prefix (lstrip s)) as [ws' Hs']. rewrite Hs' in H.
  apply search_label_app in H. apply H.
Qed.

End Trimming.

(** ** Splitting and joining *)

Section Splitting.

Variable sep : str.

Lemma startswith_skipn s : startswith sep s = true -> s = sep ++ skipn (length sep) s.
Proof.
  revert s. induction sep as [|a p IH]; intros s; [reflexivity|].
  destruct s as [|b s]; simpl; [discriminate|].
  intros H. apply andb_prop in H. destruct H as [Hab Hs].
  apply N.eqb_eq in Hab. subst b. rewrite <- (IH s Hs). reflexivity.
Qed.

(** [find_sep] cuts the text around an occurrence of the separator. *)
Lemma find_sep_Some s a b : find_sep sep s = Some (a, b) -> s = a ++ sep ++ b.
Proof.
  revert a. induction s as [|c t IH]; intros a.
  - simpl. destruct (startswith sep []) eqn:Hp; [|discriminate].
    intros [= <- <-]. exact (startswith_skipn _ Hp).
  - simpl. destruct (startswith sep (c :: t)) eqn:Hp.
    + intros [= <- <-]. exact (startswith_skipn _ Hp).
    + destruct (find_sep sep t) as [[a' b']|]; [|discriminate].
      intros [= <- <-]. simpl. rewrite <- (IH a' eq_refl). reflexivity.
Qed.

Lemma startswith_app b : startswith sep (sep ++ b) = true.
Proof.
  induction sep as [|a p IH]; [reflexivity|].
  simpl. rewrite N.eqb_refl, IH. reflexivity.
Qed.

(** The occurrence [find_sep] cuts at is the leftmost one. *)
Lemma find_sep_leftmost s a b a' b' :
  find_sep sep s = Some (a, b) -> s = a' ++ sep ++ b' -> length a <= length a'.
Proof.
  revert a a'. induction s as [|c t IH]; intros a a'.
  - simpl. destruct (startswith sep []); [|discriminate].
    intros [= <- <-] _. simpl. lia.
  - simpl. destruct (startswith sep (c :: t)) eqn:Hp.
    + intros [= <- <-] _. simpl. lia.
    + destruct (find_sep sep t) as [[a1 b1]|] eqn:Hf; [|discriminate].
      intros [= <- <-] Hs. destruct a' as [|c' a''].
      * simpl in Hs. rewrite Hs, startswith_app in Hp. discriminate.
      * simpl in Hs. injection Hs as -> Ht.
        specialize (IH a1 a'' eq_refl Ht). simpl. lia.
Qed.

(** Where [find_sep] finds nothing, the separator does not occur. *)
Lemma find_sep_None s a b : find_sep sep s = None -> s <> a ++ sep ++ b.
Proof.
  revert a. induction s as [|c t IH]; intros a.
  - simpl. destruct (startswith sep []) eqn:Hp; [discriminate|].
    intros _ Hs. destruct a; [|discriminate].
    simpl in Hs. rewrite Hs, startswith_app in Hp. discriminate.
  - simpl. destruct (startswith sep (c :: t)) eqn:Hp; [discriminate|].
    destruct (find_sep sep t) as [[a1 b1]|] eqn:Hf; [discriminate|].
    intros _ Hs. destruct a as [|c' a'].
    + simpl in Hs. rewrite Hs, startswith_app in Hp. discriminate.
    + simpl in Hs. injection Hs as -> Ht. exact (IH a' eq_refl Ht).
Qed.

Hypothesis sep_nonempty : sep <> [].

Lemma find_sep_shorter s a b : find_sep sep s = Some (a, b) -> length b < length s.
Proof.
  intros H. apply find_sep_Some in H. subst s.
  rewrite !length_app. destruct sep; [congruence|simpl; lia].
Qed.

(** Once the limit reaches the length of the text, it does not cut short. *)
Lemma split_max_stable n m s :
  length s <= n -> length s <= m -> split_max sep n s = split_max sep m s.
Proof.
  revert m s. induction n as [|n IH]; intros m s Hn Hm.
  - destruct s; [|simpl in Hn; lia].
    destruct m; cbn [split_max]; [reflexivity|].
    destruct (find_sep sep []) as [[a b]|] eqn:H; [|reflexivity].
    apply find_sep_shorter in H. simpl in H. lia.
  - destruct m as [|m].
    + destruct s; [|simpl in Hm; lia]. cbn [split_max].
      destruct (find_sep sep []) as [[a b]|] eqn:H; [|reflexivity].
      apply find_sep_shorter in H. simpl in H. lia.
    + cbn [split_max]. destruct (find_sep sep s) as [[a b]|] eqn:H; [|reflexivity].
      apply find_sep_shorter in H. f_equal. apply IH; lia.
Qed.

Lemma split_max_enough n s : length s <= n -> split_max sep n s = split sep s.
Proof. intros H. apply split_max_stable; [exact H|lia]. Qed.

(** [split] cuts at the first occurrence and goes on with the rest. *)
Lemma split_unfold s :
  split sep s =
  match find_sep sep s with
  | None => [s]
  | Some (a, b) => a :: split sep b
  end.
Proof.
  unfold split at 1. destruct s as [|c t].
  - cbn [length split_max].
    destruct (find_sep sep []) as [[a b]|] eqn:H; [|reflexivity].
    apply find_sep_shorter in H. simpl in H. lia.
  - simpl length. cbn [split_max].
    destruct (find_sep sep (c :: t)) as [[a b]|] eqn:H; [|reflexivity].
    apply find_sep_shorter in H. simpl in H.
    f_equal. apply split_max_enough. lia.
Qed.

Lemma split_not_nil s : split sep s <> [].
Proof. rewrite split_unfold. destruct (find_sep sep s) as [[a b]|]; discriminate. Qed.

(** Joining the segments with the separator gives the text back. *)
Lemma join_split s : join sep (split sep s) = s.
Proof.
  remember (length s) as n eqn:Hn. revert s Hn.
  induction n as [n IH] using lt_wf_ind. intros s Hn.
  rewrite split_unfold. destruct (find_sep sep s) as [[a b]|] eqn:H; [|reflexivity].
  pose proof (find_sep_shorter _ _ _ H) as Hlt.
  pose proof (find_sep_Some _ _ _ H) as Hs.
  pose proof (split_not_nil b) as Hne.
  specialize (IH (length b) ltac:(lia) b eq_refl).
  destruct (split sep b) as [|q qs]; [congruence|].
  cbn [join]. cbn [join] in IH. rewrite IH. symmetry. exact Hs.
Qed.

End Splitting.

(** Splitting on one character undoes joining with it, for segments that
    do not hold the character. *)
Section SplitChar.

Variable c : char.

Lemma find_sep_char_absent p : ~ In c p -> find_sep [c] p = None.
Proof.
  induction p as [|d p IH]; intros H; [reflexivity|].
  simpl. destruct (c =? d)%N eqn:Hd.
  - apply N.eqb_eq in Hd. exfalso. apply H. left. symmetry. exact Hd.
  - simpl. rewrite IH; [reflexivity|]. intros E. apply H. right. exact E.
Qed.

Lemma find_sep_char_first p rest :
  ~ In c p -> find_sep [c] (p ++ c :: rest) = Some (p, rest).
Proof.
  induction p as [|d p IH]; intros H.
  - simpl. rewrite N.eqb_refl. reflexivity.
  - simpl. destruct (c =? d)%N eqn:Hd.
    + apply N.eqb_eq in Hd. exfalso. apply H. left. symmetry. exact Hd.
    + simpl. rewrite IH; [reflexivity|]. intros E. apply H. right. exact E.
Qed.

Lemma split_join_char (p : str) (ps : list str) :
  Forall (fun q => ~ In c q) (p :: ps) -> split [c] (join [c] (p :: ps)) = p :: ps.
Proof.
  assert (Hc : [c] <> []) by discriminate.
  revert p. induction ps as [|q ps IH]; intros p H.
  - cbn [join]. rewrite (split_unfold _ Hc).
    rewrite find_sep_char_absent; [reflexivity|]. inversion H. assumption.
  - change (join [c] (p :: q :: ps)) with (p ++ c :: join [c] (q :: ps)).
    rewrite (split_unfold _ Hc).
    inversion H as [|? ? Hp Hrest]. subst.
    rewrite (find_sep_char_first _ _ Hp). f_equal. apply IH. exact Hrest.
Qed.

End SplitChar.

(** What [clean_text] returns is a fixed point of it, holds no bracketed
    span and has no white space at either end. *)
Lemma clean_text_clean x :
  let y := clean_text x in
  clean_text y = y /\ search_label y = false /\ strip y = y.
Proof.
  unfold clean_text.
  pose proof (search_label_strip _ (search_label_re_sub x)) as H.
  cbv zeta. rewrite (re_sub_label_id _ H), strip_idem. auto.
Qed.

(** C9. [clean_text] is idempotent, and on a text that holds no bracketed
    span it only trims the white space at both ends. *)
Theorem clean_text_idempotent (x : str) :
  clean_text (clean_text x) = clean_text x
  /\ (~ bracketed_span x -> clean_text x = strip x).
Proof.
  split.
  - apply (clean_text_clean x).
  - intros H. apply search_label_false in H.
    unfold clean_text. rewrite (re_sub_label_id _ H). reflexivity.
Qed.

Lemma clean_text_idempotent_witness :
  clean_text (u "  plain ] text [ open
 ]	") = u "plain ] text [ open
 ]".
Proof.
  refine (eq_trans (proj2 (clean_text_idempotent _) _) _).
  - apply search_label_false. vm_compute. reflexivity.
  - vm_compute. reflexivity.
Defined.

(** ** The correction requester *)

Section Requester.

Variable w : world.
Variable text : option str.
Variable reply : str.

Hypothesis completion_returns :
  chat_create w (GROQ_API_KEY w) chat_model (chat_messages (prompt_of text))
  = Return reply.

(** One chat request is made, and its reply is parsed. *)
Lemma correct_grammar_run :
  correct_grammar w text
  = (Return (parse_reply reply),
     [ChatCreate (GROQ_API_KEY w) chat_model (chat_messages (prompt_of text))]).
Proof.
  unfold correct_grammar, perform, bind, ret.
  rewrite completion_returns. reflexivity.
Qed.

End Requester.

Lemma parse_reply_short reply :
  length (split [NL; NL] (strip reply)) < 3 ->
  parse_reply reply = (format_error, [], []).
Proof.
  intros H. unfold parse_reply.
  apply Nat.ltb_lt in H. rewrite H. reflexivity.
Qed.

(** C1. A reply whose stripped text splits on the blank line into at least
    three segments yields the first three segments, in their positions and
    unchanged; what follows the third is dropped. *)
Theorem correct_grammar_first_three
  (w : world) (text : option str) (reply s0 s1 s2 : str) (more : list str) :
  chat_create w (GROQ_API_KEY w) chat_model (chat_messages (prompt_of text))
  = Return reply ->
  split [NL; NL] (strip reply) = s0 :: s1 :: s2 :: more ->
  outcome (correct_grammar w text) = Return (s0, s1, s2)
  /\ strip reply = s0 ++ [NL; NL] ++ s1 ++ [NL; NL] ++ join [NL; NL] (s2 :: more).
Proof.
  intros Hc Hs. split.
  - rewrite (correct_grammar_run w text reply Hc).
    unfold outcome, parse_reply. cbn [fst]. rewrite Hs. reflexivity.
  - rewrite <- (join_split [NL; NL] ltac:(discriminate) (strip reply)) at 1.
    rewrite Hs. reflexivity.
Qed.

Lemma correct_grammar_first_three_witness :
  outcome (correct_grammar (Fixture.service Fixture.essay Fixture.reply_three 200)
                           (Some (u "I has a pen.")))
  = Return (u "[修正文] I have a pen.", u "[錯誤分析] has -> have",
            u "[高分建議] Read more.").
Proof.
  refine (proj1 (correct_grammar_first_three
                   (Fixture.service Fixture.essay Fixture.reply_three 200)
                   (Some (u "I has a pen.")) Fixture.reply_three
                   _ _ _ [u "Thanks!"] _ _)).
  - reflexivity.
  - vm_compute. reflexivity.
Defined.

(** C2. A reply whose stripped text splits into fewer than three segments
    does not make [correct_grammar] fail: it returns the fixed triple of the
    diagnostic text and two empty strings, whatever the reply held. *)
Theorem correct_grammar_too_short (w : world) (text : option str) (reply : str) :
  chat_create w (GROQ_API_KEY w) chat_model (chat_messages (prompt_of text))
  = Return reply ->
  length (split [NL; NL] (strip reply)) < 3 ->
  outcome (correct_grammar w text) = Return (format_error, [], []).
Proof.
  intros Hc Hs.
  rewrite (correct_grammar_run w text reply Hc).
  unfold outcome. cbn [fst]. rewrite (parse_reply_short reply Hs). reflexivity.
Qed.

Lemma correct_grammar_too_short_witness :
  outcome (correct_grammar (Fixture.service Fixture.essay Fixture.reply_two 200)
                           (Some (u "I has a pen.")))
  = Return (format_error, [], []).
Proof.
  refine (correct_grammar_too_short
            (Fixture.service Fixture.essay Fixture.reply_two 200)
            (Some (u "I has a pen.")) Fixture.reply_two _ _).
  - reflexivity.
  - vm_compute. lia.
Defined.

(** C5. Replies with fewer than three segments all parse to one and the
    same placeholder triple: the diagnostic text and two empty strings, no
    field of which comes from the reply. *)
Theorem parse_reply_all_or_nothing (reply reply' : str) :
  length (split [NL; NL] (strip reply)) < 3 ->
  length (split [NL; NL] (strip reply')) < 3 ->
  parse_reply reply = parse_reply reply'
  /\ parse_reply reply = (format_error, [], []).
Proof.
  intros H H'.
  rewrite (parse_reply_short reply H), (parse_reply_short reply' H').
  split; reflexivity.
Qed.

Lemma parse_reply_all_or_nothing_witness :
  parse_reply Fixture.reply_two = parse_reply (u "sorry")
  /\ parse_reply Fixture.reply_two = (format_error, [], []).
Proof.
  refine (parse_reply_all_or_nothing Fixture.reply_two (u "sorry") _ _).
  - vm_compute. lia.
  - vm_compute. lia.
Defined.

(** ** The content reader *)

Lemma str_eqb_refl a : str_eqb a a = true.
Proof. unfold str_eqb. destruct (list_eq_dec N.eq_dec a a); congruence. Qed.

Lemma str_eqb_nil a : str_eqb a [] = true <-> a = [].
Proof.
  unfold str_eqb. destruct (list_eq_dec _ _ _) as [e|n]; split; intros H;
    [exact e|reflexivity|discriminate|destruct (n H)].
Qed.

Lemma strings_of_strs ps : strings_of (List.map VStr ps) = Return ps.
Proof.
  induction ps as [|p ps IH]; [reflexivity|].
  cbn [List.map strings_of]. rewrite IH. reflexivity.
Qed.

(** On well-formed blocks the loop appends the paragraph texts, in order. *)
Lemma collect_paragraphs_texts blocks ps :
  paragraph_texts blocks ps ->
  forall content,
    collect_paragraphs blocks content = Return (content ++ List.map VStr ps).
Proof.
  induction 1 as [| d ty rest ps Hty Hne _ IH
                  | d p rest ps Hty Hp Hrt _ IH
                  | d p e others t c rest ps Hty Hp Hrt Ht Hc _ IH];
    intros content; cbn [collect_paragraphs getitem rbind].
  - rewrite app_nil_r. reflexivity.
  - rewrite Hty. cbn [rbind]. rewrite Hne. apply IH.
  - rewrite Hty. cbn [rbind eq_str]. rewrite str_eqb_refl, Hp.
    cbn [rbind getitem]. rewrite Hrt. cbn [rbind truthy negb]. apply IH.
  - rewrite Hty. cbn [rbind eq_str]. rewrite str_eqb_refl, Hp.
    cbn [rbind getitem]. rewrite Hrt. cbn [rbind truthy negb getitem0 getitem].
    rewrite Ht. cbn [rbind getitem]. rewrite Hc. cbn [rbind].
    rewrite IH, <- app_assoc. reflexivity.
Qed.

(** The text of a listing of well-formed blocks. *)
Lemma page_text_listing d blocks ps :
  dict_get d (u "results") = Some (VList blocks) ->
  paragraph_texts blocks ps ->
  page_text (VDict d) = Return (Some (join [NL] ps)).
Proof.
  intros Hr Hb. unfold page_text. cbn [contains getitem rbind].
  rewrite Hr. cbn [negb rbind iterate].
  rewrite (collect_paragraphs_texts blocks ps Hb). cbn [rbind app].
  unfold join_values. rewrite strings_of_strs. reflexivity.
Qed.

Section Reader.

Variable w : world.
Variable page_id : option str.

(** The reader makes one read and nothing else. *)
Lemma get_page_content_calls :
  calls (get_page_content w page_id) = [Get (blocks_url page_id) (headers w)].
Proof.
  unfold get_page_content, perform, bind, lift, calls.
  destruct (requests_get w (blocks_url page_id) (headers w)); reflexivity.
Qed.

Lemma get_page_content_run data :
  requests_get w (blocks_url page_id) (headers w) = Return data ->
  get_page_content w page_id
  = (page_text data, [Get (blocks_url page_id) (headers w)]).
Proof.
  intros H. unfold get_page_content, perform, bind, lift. rewrite H. reflexivity.
Qed.

End Reader.

(** C3, amended.  For a response whose results list holds well-formed
    blocks, N of them paragraphs with a non-empty rich-text list, the reader
    returns the N first-entry texts joined by line feeds, in block order;
    paragraphs with an empty rich-text list and other blocks add nothing.
    With N >= 1 and no line feed inside the texts, splitting the result on
    the line feed gives back exactly these N texts. *)
Theorem get_page_content_paragraphs
  (w : world) (page_id : option str) (d : list (str * value))
  (blocks : list value) (ps : list str) (N : nat) :
  requests_get w (blocks_url page_id) (headers w) = Return (VDict d) ->
  dict_get d (u "results") = Some (VList blocks) ->
  paragraph_texts blocks ps ->
  length ps = N ->
  outcome (get_page_content w page_id) = Return (Some (join [NL] ps))
  /\ (1 <= N -> Forall (fun p => ~ In NL p) ps ->
      split [NL] (join [NL] ps) = ps
      /\ length (split [NL] (join [NL] ps)) = N).
Proof.
  intros Hget Hres Hblocks HN. split.
  - rewrite (get_page_content_run w page_id (VDict d) Hget).
    unfold outcome. cbn [fst]. exact (page_text_listing d blocks ps Hres Hblocks).
  - intros H1 Hnl. destruct ps as [|p ps]; [simpl in HN; lia|].
    rewrite (split_join_char NL p ps Hnl). split; [reflexivity|exact HN].
Qed.

Lemma essay_paragraph_texts :
  paragraph_texts
    [Fixture.heading;
     Fixture.paragraph [u "I has a pen."; u " It are red."];
     Fixture.paragraph [];
     Fixture.paragraph [u "She go home."]]
    [u "I has a pen."; u "She go home."].
Proof.
  eapply texts_other; [reflexivity|reflexivity|].
  eapply texts_first; [reflexivity|reflexivity|reflexivity|reflexivity|reflexivity|].
  eapply texts_empty; [reflexivity|reflexivity|reflexivity|].
  eapply texts_first; [reflexivity|reflexivity|reflexivity|reflexivity|reflexivity|].
  exact texts_nil.
Defined.

Lemma essay_texts_one_line :
  Forall (fun p : str => ~ In NL p) [u "I has a pen."; u "She go home."].
Proof.
  repeat constructor; intros H; cbv in H;
    repeat (destruct H as [H|H]; [discriminate H|]); exact H.
Defined.

Lemma get_page_content_paragraphs_witness :
  outcome (get_page_content (Fixture.service Fixture.essay Fixture.reply_three 200)
                            (Some (u "page")))
  = Return (Some (u "I has a pen.
She go home."))
  /\ split [NL] (u "I has a pen.
She go home.") = [u "I has a pen."; u "She go home."].
Proof.
  destruct (get_page_content_paragraphs
              (Fixture.service Fixture.essay Fixture.reply_three 200)
              (Some (u "page")) _ _ _ 2
              eq_refl eq_refl essay_paragraph_texts eq_refl) as [Hread Hsplit].
  split.
  - exact Hread.
  - exact (proj1 (Hsplit (le_S 1 1 (le_n 1)) essay_texts_one_line)).
Defined.

(** C3 does not hold as stated: a text that holds a line feed adds more
    than one segment.  One paragraph with the text of two lines gives a
    result of two line-feed-separated segments for N = 1. *)
Lemma get_page_content_line_feed_in_text :
  paragraph_texts [Fixture.paragraph [u "a
b"]] [u "a
b"]
  /\ outcome (get_page_content
                (Fixture.service (Fixture.listing [Fixture.paragraph [u "a
b"]]) Fixture.reply_three 200)
                (Some (u "page"))) = Return (Some (u "a
b"))
  /\ split [NL] (u "a
b") = [u "a"; u "b"]
  /\ length (split [NL] (u "a
b")) <> 1.
Proof.
  split; [|split; [|split]].
  - eapply texts_first;
      [reflexivity|reflexivity|reflexivity|reflexivity|reflexivity|].
    exact texts_nil.
  - vm_compute. reflexivity.
  - vm_compute. reflexivity.
  - vm_compute. discriminate.
Qed.

(** C4 does not hold as stated: a listing whose only paragraph is empty
    makes the reader return the empty string, not the absent value. *)
Lemma get_page_content_blank_page_not_absent :
  paragraph_texts [Fixture.heading; Fixture.paragraph []] []
  /\ outcome (get_page_content
                (Fixture.service Fixture.blank_page Fixture.reply_three 200)
                (Some (u "page"))) = Return (Some [])
  /\ outcome (get_page_content
                (Fixture.service Fixture.blank_page Fixture.reply_three 200)
                (Some (u "page"))) <> Return None.
Proof.
  split; [|split].
  - eapply texts_other; [reflexivity|reflexivity|].
    eapply texts_empty; [reflexivity|reflexivity|reflexivity|].
    exact texts_nil.
  - vm_compute. reflexivity.
  - vm_compute. discriminate.
Qed.

(** C4, amended.  The reader returns the absent value when the response has
    no results key.  When the results list yields no paragraph text (no
    paragraph block, or only paragraphs with an empty rich-text list) it
    returns the empty string, which the handler treats like the absent
    value. *)
Theorem get_page_content_no_text
  (w : world) (page_id : option str) (d : list (str * value)) :
  requests_get w (blocks_url page_id) (headers w) = Return (VDict d) ->
  (dict_get d (u "results") = None ->
   outcome (get_page_content w page_id) = Return None)
  /\ (forall blocks,
        dict_get d (u "results") = Some (VList blocks) ->
        paragraph_texts blocks [] ->
        outcome (get_page_content w page_id) = Return (Some [])
        /\ falsy (Some []) = falsy None).
Proof.
  intros Hget. rewrite (get_page_content_run w page_id (VDict d) Hget).
  unfold outcome. cbn [fst]. split.
  - intros Hnone. unfold page_text. cbn [contains rbind].
    rewrite Hnone. reflexivity.
  - intros blocks Hres Hblocks. split; [|reflexivity].
    exact (page_text_listing d blocks [] Hres Hblocks).
Qed.

Lemma get_page_content_no_text_witness :
  outcome (get_page_content
             (Fixture.service Fixture.api_error Fixture.reply_three 200)
             (Some (u "page"))) = Return None.
Proof.
  refine (proj1 (get_page_content_no_text
                   (Fixture.service Fixture.api_error Fixture.reply_three 200)
                   (Some (u "page")) _ eq_refl) eq_refl).
Defined.



(** ** The result writer *)





(** ** The trigger handler *)

Lemma io_eta {A} (m : io A) : m = (outcome m, calls m).
Proof. destruct m. reflexivity. Qed.

Lemma bind_Return {A B} (a : A) (l : list call) (f : A -> io B) :
  bind (Return a, l) f = (outcome (f a), l ++ calls (f a)).
Proof. unfold bind, outcome, calls. destruct (f a). reflexivity. Qed.

Lemma falsy_Some s : falsy (Some s) = false <-> s <> [].
Proof.
  unfold falsy. pose proof (str_eqb_nil s) as H.
  destruct (str_eqb s []); split; intros E; try congruence.
  - exfalso. apply E. apply H. reflexivity.
  - intros ->. destruct H as [_ H]. discriminate (H eq_refl).
Qed.

Lemma trigger_python_missing w t r :
  falsy t || falsy r = true ->
  trigger_python w t r = (Return (missing_id_message, 400%Z), []).
Proof. intros H. unfold trigger_python. rewrite H. reflexivity. Qed.

Lemma trigger_python_no_content w t r content :
  falsy t || falsy r = false ->
  outcome (get_page_content w t) = Return content ->
  falsy content = true ->
  trigger_python w t r
  = (Return (no_content_message, 400%Z), [Get (blocks_url t) (headers w)]).
Proof.
  intros Hids Hread Hempty. unfold trigger_python. rewrite Hids.
  rewrite (io_eta (get_page_content w t)), Hread, get_page_content_calls.
  rewrite bind_Return, Hempty. reflexivity.
Qed.

(** C6. A request that lacks either identifier is answered 400 with a
    diagnostic body and causes no outbound call.  With both identifiers
    given and a reader that yields no content, the answer is 400 and
    neither the completion nor the update is called; the one call made is
    the read, unless an identifier is the empty string, which the handler
    treats as lacking. *)
Theorem trigger_python_rejects (w : world) (t r : option str) :
  (t = None \/ r = None ->
   trigger_python w t r = (Return (missing_id_message, 400%Z), []))
  /\ (forall tid rid content,
        t = Some tid -> r = Some rid ->
        outcome (get_page_content w t) = Return content ->
        content = None \/ content = Some [] ->
        (exists body, outcome (trigger_python w t r) = Return (body, 400%Z))
        /\ forallb is_get (calls (trigger_python w t r)) = true
        /\ (tid <> [] -> rid <> [] ->
            trigger_python w t r
            = (Return (no_content_message, 400%Z),
               [Get (blocks_url t) (headers w)]))
        /\ (tid = [] \/ rid = [] ->
            trigger_python w t r = (Return (missing_id_message, 400%Z), []))).
Proof.
  split.
  - intros H. apply trigger_python_missing.
    destruct H as [-> | ->]; [reflexivity|apply orb_true_r].
  - intros tid rid content -> -> Hread Hnone.
    assert (Hempty : falsy content = true)
      by (destruct Hnone as [-> | ->]; reflexivity).
    destruct (falsy (Some tid) || falsy (Some rid)) eqn:Hids.
    + rewrite (trigger_python_missing w _ _ Hids).
      split; [eexists; reflexivity|]. split; [reflexivity|]. split.
      * intros Ht Hr. apply falsy_Some in Ht, Hr. rewrite Ht, Hr in Hids.
        discriminate.
      * reflexivity.
    + rewrite (trigger_python_no_content w _ _ content Hids Hread Hempty).
      split; [eexists; reflexivity|]. split; [reflexivity|]. split.
      * reflexivity.
      * apply orb_false_elim in Hids. destruct Hids as [Ht Hr].
        apply falsy_Some in Ht, Hr. intros [E|E]; congruence.
Qed.

Lemma trigger_python_rejects_witness :
  trigger_python (Fixture.service Fixture.blank_page Fixture.reply_three 200)
                 (Some (u "page")) (Some (u "row"))
  = (Return (no_content_message, 400%Z),
     [Get (blocks_url (Some (u "page")))
          (headers (Fixture.service Fixture.blank_page Fixture.reply_three 200))])
  /\ trigger_python (Fixture.service Fixture.blank_page Fixture.reply_three 200)
                    (Some (u "page")) None
     = (Return (missing_id_message, 400%Z), []).
Proof.
  split.
  - refine (proj1 (proj2 (proj2
             (proj2 (trigger_python_rejects
                       (Fixture.service Fixture.blank_page Fixture.reply_three 200)
                       (Some (u "page")) (Some (u "row")))
                    (u "page") (u "row") (Some []) eq_refl eq_refl _
                    (or_intror eq_refl)))) _ _).
    + vm_compute. reflexivity.
    + intros H. vm_compute in H. discriminate H.
    + intros H. vm_compute in H. discriminate H.
  - exact (proj1 (trigger_python_rejects
                    (Fixture.service Fixture.blank_page Fixture.reply_three 200)
                    (Some (u "page")) None) (or_intror eq_refl)).
Defined.






(** ** Further properties of the cleaner *)

Section CleanerMore.

Lemma re_sub_label_length s : length (re_sub_label s) <= length s.
Proof.
  remember (length s) as n eqn:Hn. revert s Hn.
  induction n as [n IH] using lt_wf_ind. intros s Hn.
  destruct s as [|c t]; [rewrite re_sub_label_equation_1; simpl; lia|].
  rewrite re_sub_label_cons.
  destruct (match_label (c :: t)) as [r|] eqn:Hm.
  - assert (Hr : length r < length (c :: t)).
    { simpl in Hm. destruct (c =? LBRACKET)%N; [|discriminate].
      clear IH Hn. revert r Hm. induction t as [|d t IHt]; simpl; [discriminate|].
      intros r. destruct (d =? RBRACKET)%N.
      - intros [= <-]. lia.
      - destruct (d =? NL)%N; [discriminate|].
        intros H. specialize (IHt _ H). simpl in IHt. lia. }
    specialize (IH (length r) ltac:(lia) r eq_refl). lia.
  - specialize (IH (length t) ltac:(subst n; simpl; lia) t eq_refl).
    simpl in *. lia.
Qed.

Lemma lstrip_length s : length (lstrip s) <= length s.
Proof.
  induction s as [|c t IH]; simpl; [lia|].
  destruct (isspace c); simpl; lia.
Qed.

Lemma strip_length s : length (strip s) <= length s.
Proof.
  unfold strip, rstrip. rewrite length_rev.
  pose proof (lstrip_length (rev (lstrip s))) as H1.
  rewrite length_rev in H1. pose proof (lstrip_length s). lia.
Qed.

(** No match starts in a text that holds no opening bracket. *)
Lemma re_sub_label_app_plain a s :
  ~ In LBRACKET a -> re_sub_label (a ++ s) = a ++ re_sub_label s.
Proof.
  induction a as [|c a IH]; intros H; [reflexivity|].
  simpl app. rewrite re_sub_label_cons. simpl match_label.
  destruct (c =? LBRACKET)%N eqn:Hc.
  - apply N.eqb_eq in Hc. exfalso. apply H. left. exact Hc.
  - rewrite IH; [reflexivity|]. intros E. apply H. right. exact E.
Qed.

Lemma lazy_dots_label m b :
  ~ In RBRACKET m -> ~ In NL m -> lazy_dots (m ++ RBRACKET :: b) = Some b.
Proof.
  induction m as [|c m IH]; intros Hr Hn; simpl.
  - reflexivity.
  - destruct (c =? RBRACKET)%N eqn:Hc.
    + apply N.eqb_eq in Hc. exfalso. apply Hr. left. exact Hc.
    + destruct (c =? NL)%N eqn:Hl.
      * apply N.eqb_eq in Hl. exfalso. apply Hn. left. exact Hl.
      * apply IH; intros E; [apply Hr|apply Hn]; right; exact E.
Qed.

End CleanerMore.

(** X11. [clean_text] never makes a text longer. *)
Theorem clean_text_length (x : str) : length (clean_text x) <= length x.
Proof.
  unfold clean_text.
  pose proof (strip_length (re_sub_label x)).
  pose proof (re_sub_label_length x). lia.
Qed.

(** X12. A bracketed span that follows text without an opening bracket is
    removed whole: cleaning the text gives what cleaning it without the span
    gives. *)
Theorem clean_text_drops_span (a m b : str) :
  ~ In LBRACKET a -> ~ In RBRACKET m -> ~ In NL m ->
  clean_text (a ++ LBRACKET :: m ++ RBRACKET :: b) = clean_text (a ++ b).
Proof.
  intros Ha Hr Hn. unfold clean_text.
  rewrite !(re_sub_label_app_plain a _ Ha).
  rewrite re_sub_label_cons. simpl match_label.
  rewrite (lazy_dots_label m b Hr Hn). reflexivity.
Qed.

Lemma clean_text_drops_span_witness :
  clean_text (u "He goes " ++ LBRACKET :: u "錯誤分析" ++ RBRACKET :: u " home [x] ")
  = clean_text (u "He goes " ++ u " home [x] ").
Proof.
  refine (clean_text_drops_span (u "He goes ") (u "錯誤分析") (u " home [x] ") _ _ _);
    intros H; cbv in H;
    repeat (destruct H as [H|H]; [discriminate H|]); exact H.
Defined.

(** ** Further properties of splitting *)

Section SplittingMore.

Variable sep : str.
Hypothesis sep_nonempty : sep <> [].

Lemma app_same_length (a a' x y : str) :
  length a = length a' -> a ++ x = a' ++ y -> a = a' /\ x = y.
Proof.
  revert a'. induction a as [|c a IH]; intros [|c' a'] Hl H;
    try discriminate Hl.
  - split; [reflexivity|exact H].
  - simpl in H. injection H as -> H. injection Hl as Hl.
    destruct (IH a' Hl H) as [-> ->]. split; reflexivity.
Qed.

(** The text before the cut holds no occurrence of the separator. *)
Lemma find_sep_before_clean s a b :
  find_sep sep s = Some (a, b) -> find_sep sep a = None.
Proof.
  intros H. destruct (find_sep sep a) as [[x y]|] eqn:Ha; [|reflexivity].
  apply find_sep_Some in Ha.
  pose proof (find_sep_Some sep s a b H) as Hs.
  assert (Hle : length a <= length x).
  { apply (find_sep_leftmost sep s a b x (y ++ sep ++ b) H).
    rewrite Hs, Ha, <- !app_assoc. reflexivity. }
  rewrite Ha, !length_app in Hle.
  destruct sep; [congruence|simpl in Hle; lia].
Qed.

(** [find_sep] finds the separator wherever it occurs. *)
Lemma find_sep_complete s a b : s = a ++ sep ++ b -> exists a' b', find_sep sep s = Some (a', b').
Proof.
  intros Hs. destruct (find_sep sep s) as [[a' b']|] eqn:H.
  - exists a', b'. reflexivity.
  - exfalso. exact (find_sep_None sep s a b H Hs).
Qed.

(** [find_sep] cuts at the leftmost occurrence, described without it. *)
Lemma find_sep_at s a b :
  s = a ++ sep ++ b ->
  (forall a' b', s = a' ++ sep ++ b' -> length a <= length a') ->
  find_sep sep s = Some (a, b).
Proof.
  intros Hs Hleft.
  destruct (find_sep_complete s a b Hs) as (a' & b' & H).
  pose proof (find_sep_Some sep s a' b' H) as Hs'.
  pose proof (find_sep_leftmost sep s a' b' a b H Hs) as H1.
  pose proof (Hleft a' b' Hs') as H2.
  assert (Hl : length a = length a') by lia.
  rewrite Hs in Hs'.
  destruct (app_same_length a a' _ _ Hl Hs') as [<- Hrest].
  apply app_inv_head in Hrest. subst b'. exact H.
Qed.

(** No segment of a split holds the separator. *)
Lemma split_segments_clean s :
  Forall (fun seg => find_sep sep seg = None) (split sep s).
Proof.
  remember (length s) as n eqn:Hn. revert s Hn.
  induction n as [n IH] using lt_wf_ind. intros s Hn.
  rewrite (split_unfold sep sep_nonempty).
  destruct (find_sep sep s) as [[a b]|] eqn:H.
  - constructor.
    + exact (find_sep_before_clean s a b H).
    + pose proof (find_sep_shorter sep sep_nonempty s a b H).
      apply (IH (length b)); [lia|reflexivity].
  - constructor; [exact H|constructor].
Qed.

End SplittingMore.

Lemma Forall_nth_str (P : str -> Prop) (l : list str) (n : nat) :
  Forall P l -> n < length l -> P (nth n l []).
Proof.
  intros H. revert n. induction H as [|x l Hx _ IH]; intros n Hn.
  - simpl in Hn. lia.
  - destruct n; [exact Hx|]. simpl. apply IH. simpl in Hn. lia.
Qed.

Lemma no_blank_line s : find_sep [NL; NL] s = None -> ~ has_blank_line s.
Proof.
  intros H (x & y & Hs). exact (find_sep_None [NL; NL] s x y H Hs).
Qed.

(** X13. No section that [correct_grammar] hands on holds a blank line,
    whatever the reply was. *)
Theorem parse_reply_no_blank_line (reply : str) :
  ~ has_blank_line (fst (fst (parse_reply reply)))
  /\ ~ has_blank_line (snd (fst (parse_reply reply)))
  /\ ~ has_blank_line (snd (parse_reply reply)).
Proof.
  unfold parse_reply.
  pose proof (split_segments_clean [NL; NL] ltac:(discriminate) (strip reply)) as Hall.
  destruct (length (split [NL; NL] (strip reply)) <? 3) eqn:Hlen; cbn [fst snd].
  - repeat split; apply no_blank_line; vm_compute; reflexivity.
  - apply Nat.ltb_ge in Hlen.
    repeat split; apply no_blank_line;
      apply (Forall_nth_str (fun seg => find_sep [NL; NL] seg = None));
      try exact Hall; lia.
Qed.

Lemma strip_head s :
  strip s = [] \/ exists c t, strip s = c :: t /\ isspace c = false.
Proof.
  unfold strip. destruct (lstrip_head s) as [-> | (c & t & -> & Hc)].
  - left. reflexivity.
  - right. exists c, (rstrip t). split; [apply (rstrip_cons c t Hc)|exact Hc].
Qed.

(** X14. When the reply has at least three segments, the first section is
    not empty and starts with a character that is not white space. *)
Theorem parse_reply_first_section (reply : str) :
  3 <= length (split [NL; NL] (strip reply)) ->
  exists c rest,
    fst (fst (parse_reply reply)) = c :: rest /\ isspace c = false.
Proof.
  intros Hlen. unfold parse_reply.
  assert (Hge : (length (split [NL; NL] (strip reply)) <? 3) = false)
    by (apply Nat.ltb_ge; exact Hlen).
  rewrite Hge. cbn [fst].
  revert Hlen. rewrite (split_unfold [NL; NL] ltac:(discriminate)).
  destruct (strip_head reply) as [-> | (c & t & -> & Hc)].
  - simpl. lia.
  - assert (Hnl : (NL =? c)%N = false).
    { destruct (NL =? c)%N eqn:E; [|reflexivity].
      apply N.eqb_eq in E. subst c. discriminate Hc. }
    cbn [find_sep startswith]. rewrite Hnl. cbn [andb].
    destruct (find_sep [NL; NL] t) as [[a b]|].
    + intros _. exists c, a. split; [reflexivity|exact Hc].
    + simpl. lia.
Qed.

Lemma parse_reply_first_section_witness :
  exists c rest,
    fst (fst (parse_reply Fixture.reply_three)) = c :: rest /\ isspace c = false.
Proof.
  refine (parse_reply_first_section Fixture.reply_three _).
  vm_compute. repeat constructor.
Defined.

(** ** The section extractor *)

(** The lazy group stops at the first line that opens with a bracket, or at
    the end of the text. *)
Lemma lazy_any_stops body tail :
  tail = [] \/ (exists rest, tail = NL :: LBRACKET :: rest) ->
  (forall x y, body <> x ++ [NL; LBRACKET] ++ y) ->
  lazy_any (body ++ tail) = body.
Proof.
  intros Htail. induction body as [|d body IH]; intros Hfree.
  - destruct Htail as [-> | (rest & ->)]; reflexivity.
  - assert (Hnot : startswith [NL; LBRACKET] ((d :: body) ++ tail) = false).
    { destruct (startswith [NL; LBRACKET] ((d :: body) ++ tail)) eqn:E; [|reflexivity].
      exfalso. cbn [app startswith] in E. apply andb_prop in E. destruct E as [E1 E2].
      apply N.eqb_eq in E1. subst d.
      destruct body as [|d' body'].
      - destruct Htail as [-> | (rest & ->)]; simpl in E2; discriminate E2.
      - cbn [app startswith] in E2. apply andb_prop in E2. destruct E2 as [E2 _].
        apply N.eqb_eq in E2. subst d'.
        exact (Hfree [] body' eq_refl). }
    change (lazy_any ((d :: body) ++ tail))
      with (if startswith [NL; LBRACKET] ((d :: body) ++ tail) then []
            else d :: lazy_any (body ++ tail)).
    rewrite Hnot, IH; [reflexivity|].
    intros x y E. apply (Hfree (d :: x) y). rewrite E. reflexivity.
Qed.

(** X15. For a plain section name, [extract_section] returns the stripped
    text between the leftmost occurrence of the name and the next line that
    opens with a bracket, or the end of the text when there is no such
    line. *)
Theorem extract_section_found (text name before : str) (c : char) (body tail : str) :
  plain_name name = true ->
  text = before ++ name ++ c :: body ++ tail ->
  (forall a' b', text = a' ++ name ++ b' -> length before <= length a') ->
  tail = [] \/ (exists rest, tail = NL :: LBRACKET :: rest) ->
  (forall x y, body <> x ++ [NL; LBRACKET] ++ y) ->
  extract_section text name = Some (strip (c :: body)).
Proof.
  intros Hplain Htext Hleft Htail Hfree. unfold extract_section.
  rewrite Hplain.
  rewrite (find_sep_at name text before (c :: body ++ tail) Htext Hleft).
  cbv iota beta. rewrite (lazy_any_stops body tail Htail Hfree). reflexivity.
Qed.

Lemma extract_section_found_witness :
  extract_section (u "Note [x]. Corrected: He goes home.
[next] more") (u "Corrected:") = Some (u "He goes home.").
Proof.
  refine (eq_trans
            (extract_section_found
               (u "Note [x]. Corrected: He goes home.
[next] more") (u "Corrected:") (u "Note [x]. ") 32%N (u "He goes home.")
               (NL :: LBRACKET :: u "next] more") _ _ _ _ _) _).
  - vm_compute. reflexivity.
  - vm_compute. reflexivity.
  - intros a' b' H.
    refine (find_sep_leftmost (u "Corrected:") _ (u "Note [x]. ")
              (u " He goes home.
[next] more") a' b' _ H).
    vm_compute. reflexivity.
  - right. eexists. reflexivity.
  - intros x y H.
    refine (find_sep_None [NL; LBRACKET] (u "He goes home.") x y _ H).
    vm_compute. reflexivity.
  - vm_compute. reflexivity.
Defined.

(** X16. For a plain section name that is nowhere followed by text (it
    does not occur, or only at the very end), [extract_section] returns the
    fixed warning text. *)
Theorem extract_section_missing (text name : str) :
  plain_name name = true ->
  (forall a b, text = a ++ name ++ b -> b = []) ->
  extract_section text name = Some unparsed_message.
Proof.
  intros Hplain Hend. unfold extract_section. rewrite Hplain.
  destruct (find_sep name text) as [[a b]|] eqn:H; [|reflexivity].
  rewrite (Hend a b (find_sep_Some name text a b H)). reflexivity.
Qed.

Lemma extract_section_missing_witness :
  extract_section (u "He goes home. Corrected:") (u "Corrected:")
  = Some unparsed_message.
Proof.
  refine (extract_section_missing (u "He goes home. Corrected:") (u "Corrected:") _ _).
  - vm_compute. reflexivity.
  - intros a b H.
    pose proof (find_sep_leftmost (u "Corrected:") (u "He goes home. Corrected:")
                  (u "He goes home. ") [] a b ltac:(vm_compute; reflexivity) H) as Hle.
    apply (f_equal (@length char)) in H. rewrite !length_app in H.
    assert (Hb : length b = 0).
    { change (length (u "He goes home. Corrected:")) with 24 in H.
      change (length (u "Corrected:")) with 10 in H.
      change (length (u "He goes home. ")) with 14 in Hle. lia. }
    destruct b; [reflexivity|discriminate Hb].
Defined.

(** ** Further properties of the content reader *)

Section ReaderMore.

(** The loop runs through a list of blocks part by part. *)
Lemma collect_paragraphs_app a b content :
  collect_paragraphs (a ++ b) content
  = rbind (collect_paragraphs a content) (collect_paragraphs b).
Proof.
  revert content. induction a as [|block a IH]; intros content; [reflexivity|].
  cbn [app collect_paragraphs].
  destruct (getitem block (u "type")) as [ty|]; cbn [rbind]; [|reflexivity].
  destruct (eq_str ty (u "paragraph")); [|apply IH].
  destruct (getitem block (u "paragraph")) as [p|]; cbn [rbind]; [|reflexivity].
  destruct (getitem p (u "rich_text")) as [rt|]; cbn [rbind]; [|reflexivity].
  destruct (negb (truthy rt)); [apply IH|].
  destruct (getitem0 rt) as [f|]; cbn [rbind]; [|reflexivity].
  destruct (getitem f (u "text")) as [t|]; cbn [rbind]; [|reflexivity].
  destruct (getitem t (u "content")) as [c|]; cbn [rbind]; [|reflexivity].
  apply IH.
Qed.

Lemma strings_of_not_str ps v rest :
  (forall s, v <> VStr s) ->
  strings_of (List.map VStr ps ++ v :: rest) = Raise TypeError.
Proof.
  intros Hv. induction ps as [|p ps IH]; cbn [List.map app strings_of].
  - destruct v; try reflexivity. exfalso. exact (Hv s eq_refl).
  - rewrite IH. reflexivity.
Qed.

Lemma page_text_results d blocks :
  dict_get d (u "results") = Some (VList blocks) ->
  page_text (VDict d)
  = rbind (collect_paragraphs blocks [])
          (fun content => rbind (join_values [NL] content)
                                (fun text => Return (Some text))).
Proof.
  intros H. unfold page_text. cbn [contains getitem rbind]. rewrite H. reflexivity.
Qed.

End ReaderMore.

Ltac texts :=
  repeat first
    [ exact texts_nil
    | eapply texts_other; [reflexivity|reflexivity|]
    | eapply texts_first; [reflexivity|reflexivity|reflexivity|reflexivity|reflexivity|]
    | eapply texts_empty; [reflexivity|reflexivity|reflexivity|] ].

(** X6. One block without a type makes the whole read fail with a
    [KeyError], whatever well-formed blocks come before it and whatever
    comes after: no partial text is returned. *)
Theorem page_text_block_without_type
  (d blk : list (str * value)) (before after : list value) (ps : list str) :
  dict_get d (u "results") = Some (VList (before ++ VDict blk :: after)) ->
  paragraph_texts before ps ->
  dict_get blk (u "type") = None ->
  page_text (VDict d) = Raise KeyError.
Proof.
  intros Hres Hbefore Hty.
  rewrite (page_text_results d _ Hres), collect_paragraphs_app.
  rewrite (collect_paragraphs_texts before ps Hbefore). cbn [rbind].
  cbn [collect_paragraphs getitem]. rewrite Hty. reflexivity.
Qed.

Lemma page_text_block_without_type_witness :
  page_text (Fixture.listing
               [Fixture.heading; Fixture.paragraph [u "I has a pen."];
                VDict [(u "object", VStr (u "block"))];
                Fixture.paragraph [u "She go home."]])
  = Raise KeyError.
Proof.
  refine (page_text_block_without_type _ [(u "object", VStr (u "block"))]
            [Fixture.heading; Fixture.paragraph [u "I has a pen."]]
            [Fixture.paragraph [u "She go home."]]
            [u "I has a pen."] _ _ eq_refl).
  - reflexivity.
  - texts.
Defined.

(** X7. A paragraph whose rich text is falsy is skipped without an error,
    whatever kind of value it is: an empty list, [None], zero, an empty
    string or an empty object. *)
Theorem page_text_skips_falsy_rich_text
  (d blk p : list (str * value)) (rt : value)
  (before after : list value) (ps qs : list str) :
  dict_get d (u "results") = Some (VList (before ++ VDict blk :: after)) ->
  paragraph_texts before ps ->
  paragraph_texts after qs ->
  dict_get blk (u "type") = Some (VStr (u "paragraph")) ->
  dict_get blk (u "paragraph") = Some (VDict p) ->
  dict_get p (u "rich_text") = Some rt ->
  truthy rt = false ->
  page_text (VDict d) = Return (Some (join [NL] (ps ++ qs))).
Proof.
  intros Hres Hbefore Hafter Hty Hp Hrt Hfalsy.
  rewrite (page_text_results d _ Hres), collect_paragraphs_app.
  rewrite (collect_paragraphs_texts before ps Hbefore). cbn [rbind].
  cbn [collect_paragraphs getitem]. rewrite Hty. cbn [rbind eq_str].
  rewrite str_eqb_refl, Hp. cbn [rbind getitem]. rewrite Hrt. cbn [rbind].
  rewrite Hfalsy. cbn [negb].
  rewrite (collect_paragraphs_texts after qs Hafter). cbn [rbind app].
  rewrite <- map_app. unfold join_values. rewrite strings_of_strs. reflexivity.
Qed.

Lemma page_text_skips_falsy_rich_text_witness :
  page_text (Fixture.listing
               [Fixture.paragraph [u "I has a pen."];
                Faults.paragraph_of VNone;
                Fixture.paragraph [u "She go home."]])
  = Return (Some (join [NL] ([u "I has a pen."] ++ [u "She go home."]))).
Proof.
  refine (page_text_skips_falsy_rich_text _
            [(u "type", VStr (u "paragraph"));
             (u "paragraph", VDict [(u "rich_text", VNone)])]
            [(u "rich_text", VNone)] VNone
            [Fixture.paragraph [u "I has a pen."]]
            [Fixture.paragraph [u "She go home."]]
            [u "I has a pen."] [u "She go home."]
            _ _ _ eq_refl eq_refl eq_refl eq_refl).
  - reflexivity.
  - texts.
  - texts.
Defined.

(** X8. A first rich-text entry whose content is not a string (say
    [None]) is collected all the same, and makes the join, and with it the
    read, fail with a [TypeError]. *)
Theorem page_text_content_not_a_string
  (d blk p e t : list (str * value)) (others : list value) (v : value)
  (before after : list value) (ps qs : list str) :
  dict_get d (u "results") = Some (VList (before ++ VDict blk :: after)) ->
  paragraph_texts before ps ->
  paragraph_texts after qs ->
  dict_get blk (u "type") = Some (VStr (u "paragraph")) ->
  dict_get blk (u "paragraph") = Some (VDict p) ->
  dict_get p (u "rich_text") = Some (VList (VDict e :: others)) ->
  dict_get e (u "text") = Some (VDict t) ->
  dict_get t (u "content") = Some v ->
  (forall s, v <> VStr s) ->
  page_text (VDict d) = Raise TypeError.
Proof.
  intros Hres Hbefore Hafter Hty Hp Hrt Ht Hc Hv.
  rewrite (page_text_results d _ Hres), collect_paragraphs_app.
  rewrite (collect_paragraphs_texts before ps Hbefore). cbn [rbind].
  cbn [collect_paragraphs getitem]. rewrite Hty. cbn [rbind eq_str].
  rewrite str_eqb_refl, Hp. cbn [rbind getitem]. rewrite Hrt.
  cbn [rbind truthy negb getitem0 getitem]. rewrite Ht. cbn [rbind getitem].
  rewrite Hc. cbn [rbind].
  rewrite (collect_paragraphs_texts after qs Hafter). cbn [rbind app].
  unfold join_values. rewrite <- app_assoc. cbn [app].
  rewrite (strings_of_not_str ps v _ Hv). reflexivity.
Qed.

Lemma page_text_content_not_a_string_witness :
  page_text (Fixture.listing
               [Fixture.paragraph [u "I has a pen."];
                Faults.paragraph_of
                  (VList [VDict [(u "text", VDict [(u "content", VNone)])]])])
  = Raise TypeError.
Proof.
  refine (page_text_content_not_a_string _
            [(u "type", VStr (u "paragraph"));
             (u "paragraph",
              VDict [(u "rich_text",
                      VList [VDict [(u "text", VDict [(u "content", VNone)])]])])]
            [(u "rich_text",
              VList [VDict [(u "text", VDict [(u "content", VNone)])]])]
            [(u "text", VDict [(u "content", VNone)])]
            [(u "content", VNone)] [] VNone
            [Fixture.paragraph [u "I has a pen."]] []
            [u "I has a pen."] []
            _ _ _ eq_refl eq_refl eq_refl eq_refl eq_refl _).
  - reflexivity.
  - texts.
  - texts.
  - intros s H. discriminate H.
Defined.





(** ** Further properties of the trigger handler *)

Section HandlerMore.

Variable w : world.

Lemma bind_Raise {A B} (e : exn) (l : list call) (f : A -> io B) :
  bind (Raise e, l) f = (Raise e, l).
Proof. reflexivity. Qed.

Lemma correct_grammar_eq text :
  correct_grammar w text
  = (match chat_create w (GROQ_API_KEY w) chat_model
                       (chat_messages (prompt_of text)) with
     | Return reply => Return (parse_reply reply)
     | Raise e => Raise e
     end,
     [ChatCreate (GROQ_API_KEY w) chat_model (chat_messages (prompt_of text))]).
Proof.
  unfold correct_grammar, perform, bind, ret.
  destruct (chat_create w _ _ _); reflexivity.
Qed.

Lemma update_notion_page_eq row c e h :
  update_notion_page w row c e h
  = (match requests_patch w (pages_url row) (headers w)
             (notion_data (clean_text c) (clean_text e) (clean_text h)) with
     | Return _ => Return tt
     | Raise x => Raise x
     end,
     [Patch (pages_url row) (headers w)
            (notion_data (clean_text c) (clean_text e) (clean_text h))]).
Proof.
  unfold update_notion_page, perform, bind, ret.
  destruct (requests_patch w _ _ _); reflexivity.
Qed.

(** The handler step by step, once both identifiers are there. *)
Lemma trigger_python_steps t r :
  falsy t || falsy r = false ->
  let g := Get (blocks_url t) (headers w) in
  let ch content :=
    ChatCreate (GROQ_API_KEY w) chat_model (chat_messages (prompt_of content)) in
  let body reply :=
    notion_data (clean_text (fst (fst (parse_reply reply))))
                (clean_text (snd (fst (parse_reply reply))))
                (clean_text (snd (parse_reply reply))) in
  trigger_python w t r =
  match outcome (get_page_content w t) with
  | Raise e => (Raise e, [g])
  | Return content =>
      if falsy content then (Return (no_content_message, 400%Z), [g])
      else
        match chat_create w (GROQ_API_KEY w) chat_model
                          (chat_messages (prompt_of content)) with
        | Raise e => (Raise e, [g; ch content])
        | Return reply =>
            let p := Patch (pages_url r) (headers w) (body reply) in
            match requests_patch w (pages_url r) (headers w) (body reply) with
            | Raise e => (Raise e, [g; ch content; p])
            | Return _ => (Return (success_page, 200%Z), [g; ch content; p])
            end
        end
  end.
Proof.
  intros Hids. cbv zeta. unfold trigger_python. rewrite Hids.
  pose proof (io_eta (get_page_content w t)) as Heta.
  rewrite get_page_content_calls in Heta.
  destruct (outcome (get_page_content w t)) as [content|e];
    rewrite Heta; [|reflexivity].
  rewrite bind_Return.
  destruct (falsy content); [reflexivity|].
  rewrite correct_grammar_eq.
  destruct (chat_create w _ _ _) as [reply|e]; [|reflexivity].
  rewrite bind_Return.
  destruct (parse_reply reply) as [[c e] h]. cbn [fst snd].
  rewrite update_notion_page_eq.
  destruct (requests_patch w _ _ _) as [answer|x]; reflexivity.
Qed.

End HandlerMore.


(** X2. When the handler returns, the status is 400 or 200.  It is 400
    with one of the two diagnostic bodies, after at most the read; it is 200
    with the fixed page only after the update request was sent as the third
    call and was answered. *)
Theorem trigger_python_status (w : world) (t r : option str) (body : str) (st : Z) :
  outcome (trigger_python w t r) = Return (body, st) ->
  (st = 400%Z
   /\ (body = missing_id_message \/ body = no_content_message)
   /\ forallb is_get (calls (trigger_python w t r)) = true)
  \/ (st = 200%Z /\ body = success_page
      /\ exists c1 c2 json answer,
           calls (trigger_python w t r)
           = [c1; c2; Patch (pages_url r) (headers w) json]
           /\ requests_patch w (pages_url r) (headers w) json = Return answer).
Proof.
  destruct (falsy t || falsy r) eqn:Hids.
  - rewrite (trigger_python_missing w t r Hids). unfold outcome, calls. cbn [fst snd].
    intros [= <- <-]. left. split; [reflexivity|]. split; [left|]; reflexivity.
  - rewrite (trigger_python_steps w t r Hids).
    destruct (outcome (get_page_content w t)) as [content|e];
      [|intros H; discriminate H].
    destruct (falsy content).
    + unfold outcome, calls. cbn [fst snd]. intros [= <- <-].
      left. split; [reflexivity|]. split; [right|]; reflexivity.
    + destruct (chat_create w _ _ _) as [reply|e]; [|intros H; discriminate H].
      destruct (requests_patch w _ _ _) as [answer|e] eqn:Hpatch;
        [|intros H; discriminate H].
      unfold outcome, calls. cbn [fst snd]. intros [= <- <-].
      right. split; [reflexivity|]. split; [reflexivity|].
      eexists _, _, _, answer. split; [reflexivity|exact Hpatch].
Qed.

Lemma trigger_python_status_witness :
  (200%Z = 400%Z
   /\ (success_page = missing_id_message \/ success_page = no_content_message)
   /\ forallb is_get (calls (trigger_python
        (Fixture.service Fixture.essay Fixture.reply_three 200)
        (Some (u "page")) (Some (u "row")))) = true)
  \/ (200%Z = 200%Z /\ success_page = success_page
      /\ exists c1 c2 json answer,
           calls (trigger_python
                    (Fixture.service Fixture.essay Fixture.reply_three 200)
                    (Some (u "page")) (Some (u "row")))
           = [c1; c2; Patch (pages_url (Some (u "row")))
                            (headers (Fixture.service Fixture.essay
                                                      Fixture.reply_three 200))
                            json]
           /\ requests_patch (Fixture.service Fixture.essay Fixture.reply_three 200)
                (pages_url (Some (u "row")))
                (headers (Fixture.service Fixture.essay Fixture.reply_three 200))
                json = Return answer).
Proof.
  refine (trigger_python_status
            (Fixture.service Fixture.essay Fixture.reply_three 200)
            (Some (u "page")) (Some (u "row")) success_page 200 _).
  vm_compute. reflexivity.
Defined.

(** X3. When the read fails (the request raises, or the response is
    malformed), the handler fails with the same exception after that one
    call: no completion is requested and nothing is written. *)
Theorem trigger_python_read_failure (w : world) (t r : option str) (e : exn) :
  falsy t = false -> falsy r = false ->
  outcome (get_page_content w t) = Raise e ->
  trigger_python w t r = (Raise e, [Get (blocks_url t) (headers w)]).
Proof.
  intros Ht Hr Hread.
  rewrite (trigger_python_steps w t r); [|rewrite Ht, Hr; reflexivity].
  rewrite Hread. reflexivity.
Qed.

Lemma trigger_python_read_failure_witness :
  trigger_python (Faults.read_fails RequestError) (Some (u "page")) (Some (u "row"))
  = (Raise RequestError,
     [Get (blocks_url (Some (u "page"))) (headers (Faults.read_fails RequestError))]).
Proof.
  refine (trigger_python_read_failure (Faults.read_fails RequestError)
            (Some (u "page")) (Some (u "row")) RequestError _ _ _);
    vm_compute; reflexivity.
Defined.





(** X17. An unset document-service key is not checked: with both
    identifiers given the read is sent all the same, and its authorization
    header reads [Bearer None]. *)
Theorem trigger_python_unset_key (w : world) (t r : option str) :
  environ w (u "NOTION_API_KEY") = None ->
  falsy t = false -> falsy r = false ->
  exists rest,
    calls (trigger_python w t r)
    = Get (blocks_url t)
          [(u "Authorization", u "Bearer None");
           (u "Notion-Version", u "2022-06-28");
           (u "Content-Type", u "application/json")] :: rest.
Proof.
  intros Hkey Ht Hr.
  assert (Hh : headers w = [(u "Authorization", u "Bearer None");
                            (u "Notion-Version", u "2022-06-28");
                            (u "Content-Type", u "application/json")]).
  { unfold headers, NOTION_API_KEY. rewrite Hkey. reflexivity. }
  rewrite <- Hh.
  rewrite (trigger_python_steps w t r); [|rewrite Ht, Hr; reflexivity].
  destruct (outcome (get_page_content w t)) as [content|e];
    [|eexists; reflexivity].
  destruct (falsy content); [eexists; reflexivity|].
  destruct (chat_create w _ _ _) as [reply|e]; [|eexists; reflexivity].
  destruct (requests_patch w _ _ _); eexists; reflexivity.
Qed.

Lemma trigger_python_unset_key_witness :
  exists rest,
    calls (trigger_python Faults.no_keys (Some (u "page")) (Some (u "row")))
    = Get (blocks_url (Some (u "page")))
          [(u "Authorization", u "Bearer None");
           (u "Notion-Version", u "2022-06-28");
           (u "Content-Type", u "application/json")] :: rest.
Proof.
  refine (trigger_python_unset_key Faults.no_keys (Some (u "page")) (Some (u "row"))
            _ _ _); vm_compute; reflexivity.
Defined.

Lemma join_nil_iff (sep : str) (ps : list str) :
  sep <> [] -> (join sep ps = [] <-> ps = [] \/ ps = [[]]).
Proof.
  intros Hsep. destruct ps as [|p [|q rest]].
  - split; [left|]; reflexivity.
  - cbn [join]. split.
    + intros ->. right. reflexivity.
    + intros [H|H]; [discriminate H|]. injection H as ->. reflexivity.
  - change (join sep (p :: q :: rest)) with (p ++ sep ++ join sep (q :: rest)).
    split.
    + intros H. apply app_eq_nil in H. destruct H as [_ H].
      apply app_eq_nil in H. destruct H as [H _]. congruence.
    + intros [H|H]; discriminate H.
Qed.

(** X18. For a listing of well-formed blocks, the text read is falsy, so
    that the handler answers that there is no content, exactly when no
    paragraph text was collected or the only one collected is the empty
    string.  Two or more collected texts, even all empty, give a text of
    line feeds that is passed on. *)
Theorem page_text_falsy_iff
  (d : list (str * value)) (blocks : list value) (ps : list str) :
  dict_get d (u "results") = Some (VList blocks) ->
  paragraph_texts blocks ps ->
  exists text,
    page_text (VDict d) = Return (Some text)
    /\ (falsy (Some text) = true <-> ps = [] \/ ps = [[]]).
Proof.
  intros Hres Hblocks. exists (join [NL] ps). split.
  - exact (page_text_listing d blocks ps Hres Hblocks).
  - unfold falsy. rewrite str_eqb_nil.
    apply join_nil_iff. discriminate.
Qed.

Lemma page_text_falsy_iff_witness :
  exists text,
    page_text (Fixture.listing [Fixture.paragraph [[]]; Fixture.paragraph [[]]])
    = Return (Some text)
    /\ (falsy (Some text) = true
        <-> ([[]; []] : list str) = [] \/ ([[]; []] : list str) = [[]]).
Proof.
  refine (page_text_falsy_iff _ [Fixture.paragraph [[]]; Fixture.paragraph [[]]]
            ([[]; []] : list str) _ _).
  - reflexivity.
  - texts.
Defined.
